(** * Orbital camera and hotspot geodesy engine of the immersive globe

    A shallow embedding of the globe manager ([class le]) and of the
    interaction manager ([class de]) of [assets/index-Ien1UOMZ.js].

    JavaScript numbers are modelled as real numbers: arithmetic is ideal
    (no rounding, no NaN, no infinities).  Objects of the 3D library and of
    the animation library are external; where the code only consumes their
    results (a projected point, a ray hit distance, an eased ratio) these
    results are inputs of the model. *)

From Stdlib Require Import Reals Lra Lia List Bool Arith String.
Import ListNotations.

Local Open Scope R_scope.

(** ** The [Math] functions the code uses *)

Module JsMath.

Definition ltb (x y : R) : bool := if Rlt_dec x y then true else false.
Definition gtb (x y : R) : bool := ltb y x.

Definition max (a b : R) : R := Rmax a b.
Definition min (a b : R) : R := Rmin a b.
Definition abs (x : R) : R := Rabs x.

Definition sign (x : R) : R :=
  if Rlt_dec 0 x then 1 else if Rlt_dec x 0 then -1 else 0.

(** [Math.pow(x, y)] for a positive base and a real exponent. *)
Definition pow (x y : R) : R := Rpower x y.

(** [Math.pow(x, 2)], any base. *)
Definition pow2 (x : R) : R := x * x.

Definition atan2 (y x : R) : R :=
  if Rlt_dec 0 x then atan (y / x)
  else if Rlt_dec x 0 then
         (if Rlt_dec y 0 then atan (y / x) - PI else atan (y / x) + PI)
  else if Rlt_dec 0 y then PI / 2
  else if Rlt_dec y 0 then - (PI / 2)
  else 0.

End JsMath.


(** ** Vectors ([y] of the 3D library) *)

Record Vec3 : Type := mkVec3 { vx : R; vy : R; vz : R }.

Definition vscale (k : R) (v : Vec3) : Vec3 :=
  mkVec3 (vx v * k) (vy v * k) (vz v * k).

Definition vlength (v : Vec3) : R :=
  sqrt (vx v * vx v + vy v * vy v + vz v * vz v).

(** [normalize()] divides by [length() || 1]. *)
Definition vnormalize (v : Vec3) : Vec3 :=
  let l := vlength v in
  let d := if Req_EM_T l 0 then 1 else l in
  mkVec3 (vx v / d) (vy v / d) (vz v / d).

(** ** Geodesy *)

Record GeoPosition : Type := mkGeo { lat : R; lng : R }.

Module Geodesy.

(** The hotspot marker position computed in [addHotspots] (and again in
    [activateHotspot]): latitude and longitude in degrees to a point of the
    sphere of radius 2.1. *)
Definition geoToSurface (g : GeoPosition) : Vec3 :=
  let n := lat g * (PI / 180) in
  let s := lng g * (PI / 180) in
  let a := 21 / 10 in
  mkVec3 (a * cos n * cos s) (a * sin n) (a * cos n * sin s).

(** The conversion of the clicked globe point in [onMouseClick]. *)
Definition surfaceToGeo (o : Vec3) : GeoPosition :=
  let s := acos (vy o / 2) in
  let a := JsMath.atan2 (vz o) (vx o) in
  mkGeo (90 - s * 180 / PI) (a * 180 / PI - 180).

(** Round trip within a tolerance, as the specification words it. *)
Definition roundTripWithin (eps : R) (g : GeoPosition) : Prop :=
  let g' := surfaceToGeo (geoToSurface g) in
  Rabs (lat g' - lat g) <= eps /\ Rabs (lng g' - lng g) <= eps.

End Geodesy.


(** ** Hotspot catalogue *)

Record Hotspot : Type := mkHotspot {
  hotspotId : string;
  title : string;
  position : GeoPosition }.

(** ** Orbit parameters ([this.orbitParams]) *)

Record OrbitParams : Type := mkOrbitParams {
  isOrbiting : bool;
  baseSpeed : R;
  currentSpeed : R;
  maxSpeed : R;
  accelerationFactor : R;
  decelerationFactor : R;
  ellipseMajorAxis : R;
  ellipseMinorAxis : R;
  inclination : R;
  orbitAngle : R;
  zoomLevel : R;
  maxZoomLevel : R;
  minZoomLevel : R;
  inHotspotMode : bool;
  orbitHistory : list Vec3 }.

Definition set_isOrbiting (v : bool) (p : OrbitParams) : OrbitParams :=
  mkOrbitParams v (baseSpeed p) (currentSpeed p) (maxSpeed p)
    (accelerationFactor p) (decelerationFactor p) (ellipseMajorAxis p)
    (ellipseMinorAxis p) (inclination p) (orbitAngle p) (zoomLevel p)
    (maxZoomLevel p) (minZoomLevel p) (inHotspotMode p) (orbitHistory p).

Definition set_currentSpeed (v : R) (p : OrbitParams) : OrbitParams :=
  mkOrbitParams (isOrbiting p) (baseSpeed p) v (maxSpeed p)
    (accelerationFactor p) (decelerationFactor p) (ellipseMajorAxis p)
    (ellipseMinorAxis p) (inclination p) (orbitAngle p) (zoomLevel p)
    (maxZoomLevel p) (minZoomLevel p) (inHotspotMode p) (orbitHistory p).

Definition set_inclination (v : R) (p : OrbitParams) : OrbitParams :=
  mkOrbitParams (isOrbiting p) (baseSpeed p) (currentSpeed p) (maxSpeed p)
    (accelerationFactor p) (decelerationFactor p) (ellipseMajorAxis p)
    (ellipseMinorAxis p) v (orbitAngle p) (zoomLevel p)
    (maxZoomLevel p) (minZoomLevel p) (inHotspotMode p) (orbitHistory p).

Definition set_orbitAngle (v : R) (p : OrbitParams) : OrbitParams :=
  mkOrbitParams (isOrbiting p) (baseSpeed p) (currentSpeed p) (maxSpeed p)
    (accelerationFactor p) (decelerationFactor p) (ellipseMajorAxis p)
    (ellipseMinorAxis p) (inclination p) v (zoomLevel p)
    (maxZoomLevel p) (minZoomLevel p) (inHotspotMode p) (orbitHistory p).

Definition set_zoomLevel (v : R) (p : OrbitParams) : OrbitParams :=
  mkOrbitParams (isOrbiting p) (baseSpeed p) (currentSpeed p) (maxSpeed p)
    (accelerationFactor p) (decelerationFactor p) (ellipseMajorAxis p)
    (ellipseMinorAxis p) (inclination p) (orbitAngle p) v
    (maxZoomLevel p) (minZoomLevel p) (inHotspotMode p) (orbitHistory p).

Definition set_inHotspotMode (v : bool) (p : OrbitParams) : OrbitParams :=
  mkOrbitParams (isOrbiting p) (baseSpeed p) (currentSpeed p) (maxSpeed p)
    (accelerationFactor p) (decelerationFactor p) (ellipseMajorAxis p)
    (ellipseMinorAxis p) (inclination p) (orbitAngle p) (zoomLevel p)
    (maxZoomLevel p) (minZoomLevel p) v (orbitHistory p).

Definition set_orbitHistory (v : list Vec3) (p : OrbitParams) : OrbitParams :=
  mkOrbitParams (isOrbiting p) (baseSpeed p) (currentSpeed p) (maxSpeed p)
    (accelerationFactor p) (decelerationFactor p) (ellipseMajorAxis p)
    (ellipseMinorAxis p) (inclination p) (orbitAngle p) (zoomLevel p)
    (maxZoomLevel p) (minZoomLevel p) (inHotspotMode p) v.

(** ** Animations and timers

    [d.to(target, vars)] registers a tween; the animation library (external)
    later writes [start + (end - start) * ratio] into the animated property,
    where [start] is read when the tween first renders and [ratio] is the
    eased progress.  [setTimeout] registers a callback.  Both are kept in
    the state as pending work; their delays are not modelled, so every
    interleaving of pending work with input events is allowed. *)

Inductive Ease : Type :=
| Power2Out      (* "power2.out" *)
| Power2InOut    (* "power2.inOut" *)
| BackOut        (* "back.out(1.2)" *)
| ElasticOut.    (* "elastic.out(1, 0.7)" *)

Inductive Tween : Type :=
| TweenCameraPosition (start : option Vec3) (target : Vec3) (duration : R)
                      (ease : Ease) (onComplete : option Hotspot)
| TweenCameraFov (start : option R) (target : R) (duration : R) (ease : Ease)
| TweenCurrentSpeed (start : option R) (target : R) (duration : R)
                    (ease : Ease).

Definition tweenEase (t : Tween) : Ease :=
  match t with
  | TweenCameraPosition _ _ _ e _ => e
  | TweenCameraFov _ _ _ e => e
  | TweenCurrentSpeed _ _ _ e => e
  end.

(** The power eases map progress in [0,1] onto ratios in [0,1]; the back
    and elastic eases overshoot, so their ratio is left unconstrained. *)
Definition easeAdmits (e : Ease) (ratio : R) : Prop :=
  match e with
  | Power2Out | Power2InOut => 0 <= ratio <= 1
  | BackOut | ElasticOut => True
  end.

Inductive TimerAction : Type :=
| ResumeOrbit                       (* exitHotspotMode, 500 ms *)
| RestoreOrbiting (i : bool)        (* handleArrowNavigation, 500 ms *)
| ScrollQuiet.                      (* handleMouseWheel, 3000 ms *)

(** ** The state: globe manager and interaction manager *)

Record World : Type := mkWorld {
  orbitParams : OrbitParams;
  cameraPosition : Vec3;
  cameraFov : R;
  cameraMarker : option Vec3;
  hotspots : list Hotspot;
  tweens : list Tween;
  timers : list (nat * TimerAction);
  nextTimerId : nat;
  lastScrollTime : R;
  scrollAccumulator : R;
  scrollTimerId : option nat;
  redirecting : option Hotspot }.

Definition upd_orbit (f : OrbitParams -> OrbitParams) (w : World) : World :=
  mkWorld (f (orbitParams w)) (cameraPosition w) (cameraFov w)
    (cameraMarker w) (hotspots w) (tweens w) (timers w) (nextTimerId w)
    (lastScrollTime w) (scrollAccumulator w) (scrollTimerId w)
    (redirecting w).

Definition set_cameraPosition (v : Vec3) (w : World) : World :=
  mkWorld (orbitParams w) v (cameraFov w)
    (cameraMarker w) (hotspots w) (tweens w) (timers w) (nextTimerId w)
    (lastScrollTime w) (scrollAccumulator w) (scrollTimerId w)
    (redirecting w).

Definition set_cameraFov (v : R) (w : World) : World :=
  mkWorld (orbitParams w) (cameraPosition w) v
    (cameraMarker w) (hotspots w) (tweens w) (timers w) (nextTimerId w)
    (lastScrollTime w) (scrollAccumulator w) (scrollTimerId w)
    (redirecting w).

Definition set_cameraMarker (v : option Vec3) (w : World) : World :=
  mkWorld (orbitParams w) (cameraPosition w) (cameraFov w)
    v (hotspots w) (tweens w) (timers w) (nextTimerId w)
    (lastScrollTime w) (scrollAccumulator w) (scrollTimerId w)
    (redirecting w).

Definition set_hotspots (v : list Hotspot) (w : World) : World :=
  mkWorld (orbitParams w) (cameraPosition w) (cameraFov w)
    (cameraMarker w) v (tweens w) (timers w) (nextTimerId w)
    (lastScrollTime w) (scrollAccumulator w) (scrollTimerId w)
    (redirecting w).

Definition set_tweens (v : list Tween) (w : World) : World :=
  mkWorld (orbitParams w) (cameraPosition w) (cameraFov w)
    (cameraMarker w) (hotspots w) v (timers w) (nextTimerId w)
    (lastScrollTime w) (scrollAccumulator w) (scrollTimerId w)
    (redirecting w).

Definition set_timers (v : list (nat * TimerAction)) (n : nat) (w : World)
  : World :=
  mkWorld (orbitParams w) (cameraPosition w) (cameraFov w)
    (cameraMarker w) (hotspots w) (tweens w) v n
    (lastScrollTime w) (scrollAccumulator w) (scrollTimerId w)
    (redirecting w).

Definition set_lastScrollTime (v : R) (w : World) : World :=
  mkWorld (orbitParams w) (cameraPosition w) (cameraFov w)
    (cameraMarker w) (hotspots w) (tweens w) (timers w) (nextTimerId w)
    v (scrollAccumulator w) (scrollTimerId w)
    (redirecting w).

Definition set_scrollAccumulator (v : R) (w : World) : World :=
  mkWorld (orbitParams w) (cameraPosition w) (cameraFov w)
    (cameraMarker w) (hotspots w) (tweens w) (timers w) (nextTimerId w)
    (lastScrollTime w) v (scrollTimerId w)
    (redirecting w).

Definition set_scrollTimerId (v : option nat) (w : World) : World :=
  mkWorld (orbitParams w) (cameraPosition w) (cameraFov w)
    (cameraMarker w) (hotspots w) (tweens w) (timers w) (nextTimerId w)
    (lastScrollTime w) (scrollAccumulator w) v
    (redirecting w).

Definition set_redirecting (v : option Hotspot) (w : World) : World :=
  mkWorld (orbitParams w) (cameraPosition w) (cameraFov w)
    (cameraMarker w) (hotspots w) (tweens w) (timers w) (nextTimerId w)
    (lastScrollTime w) (scrollAccumulator w) (scrollTimerId w)
    v.

(** [d.to]: the new tween joins the running ones (no overwrite). *)
Definition gsap_to (t : Tween) (w : World) : World :=
  set_tweens (tweens w ++ [t]) w.

(** [setTimeout] returns the identifier of the new timer. *)
Definition setTimeout (a : TimerAction) (w : World) : nat * World :=
  (nextTimerId w,
   set_timers (timers w ++ [(nextTimerId w, a)]) (S (nextTimerId w)) w).

Definition clearTimeout (i : nat) (w : World) : World :=
  set_timers (filter (fun t => negb (Nat.eqb (fst t) i)) (timers w))
             (nextTimerId w) w.

Fixpoint replace_nth {A : Type} (k : nat) (x : A) (l : list A) : list A :=
  match l, k with
  | [], _ => []
  | _ :: l', O => x :: l'
  | y :: l', S k' => y :: replace_nth k' x l'
  end.

Fixpoint remove_nth {A : Type} (k : nat) (l : list A) : list A :=
  match l, k with
  | [], _ => []
  | _ :: l', O => l'
  | y :: l', S k' => y :: remove_nth k' l'
  end.

(** ** Globe manager *)

(** The constructor's fields; the camera is created by [init] at the
    origin with a field of view of 60. *)
Definition constructed : World :=
  mkWorld
    (mkOrbitParams true (4 / 10000) (4 / 10000) (2 / 1000) (13 / 10) (9 / 10)
       12 8 (PI / 6) 0 1 (11 / 10) (6 / 10) false [])
    (mkVec3 0 0 0) 60 None [] [] [] 1 0 0 None None.

Definition updateCameraPosition (w : World) : World :=
  let p := orbitParams w in
  if negb (isOrbiting p) then w else
  let e := ellipseMajorAxis p * zoomLevel p in
  let t := ellipseMinorAxis p * zoomLevel p in
  let i := e * cos (orbitAngle p) in
  let o := t * sin (orbitAngle p) in
  let n := inclination p in
  let s := o * sin n in
  let o := o * cos n in
  let pushed := orbitHistory p ++ [mkVec3 i s o] in
  let history := if (100 <? List.length pushed)%nat then tl pushed else pushed in
  set_cameraMarker (option_map (fun _ => mkVec3 i s o) (cameraMarker w))
    (set_cameraPosition (mkVec3 i s o)
       (upd_orbit
          (fun q => set_orbitHistory history
                      (set_orbitAngle (orbitAngle q + currentSpeed q) q))
          w)).

Definition _updateCameraPositionManual (w : World) : World :=
  let p := orbitParams w in
  let e := ellipseMajorAxis p * zoomLevel p in
  let t := ellipseMinorAxis p * zoomLevel p in
  let i := e * cos (orbitAngle p) in
  let o := t * sin (orbitAngle p) in
  let n := inclination p in
  let s := o * sin n in
  let o := o * cos n in
  let w' := set_cameraPosition (mkVec3 i s o) w in
  set_cameraMarker (option_map (fun _ => cameraPosition w') (cameraMarker w'))
    w'.

(** [addHotspots] replaces the catalogue; each marker is placed at
    [Geodesy.geoToSurface] of its position. *)
Definition addHotspots (e : list Hotspot) (w : World) : World :=
  set_hotspots e w.

Definition _findNearestHotspot (w : World) (e t i : R) : option Hotspot :=
  fst (fold_left
         (fun (acc : option Hotspot * R) (a : Hotspot) =>
            let r := lat (position a) in
            let c := lng (position a) in
            let p := sqrt (JsMath.pow2 (r - e) + JsMath.pow2 (c - t)) in
            if JsMath.ltb p (snd acc) then (Some a, p) else acc)
         (hotspots w) (None, i)).

Definition activateHotspot (w : World) (e : Hotspot) : World :=
  if inHotspotMode (orbitParams w) then w else
  let r := Geodesy.geoToSurface (position e) in
  let w1 := upd_orbit (set_isOrbiting false) w in
  let u := vscale (35 / 10) (vnormalize r) in
  let w2 :=
    gsap_to (TweenCameraPosition None u (15 / 10) Power2InOut (Some e)) w1 in
  gsap_to (TweenCameraFov None 40 (15 / 10) Power2InOut) w2.

(** [onMouseClick]: [globeHit] is the first intersection of the click ray
    with the globe, [markerHit] the hotspot of the first intersected
    marker. *)
Definition onMouseClick (w : World) (globeHit : option Vec3)
    (markerHit : option Hotspot) : World :=
  if inHotspotMode (orbitParams w) then w else
  let onMarker :=
    match markerHit with
    | Some o => activateHotspot w o
    | None => w
    end in
  match globeHit with
  | Some o =>
      let g := Geodesy.surfaceToGeo o in
      match _findNearestHotspot w (lat g) (lng g) 10 with
      | Some p => activateHotspot w p
      | None => onMarker
      end
  | None => onMarker
  end.

Definition exitHotspotMode (w : World) : World :=
  if inHotspotMode (orbitParams w) then
    let w1 := upd_orbit (set_inHotspotMode false) w in
    let w2 := gsap_to (TweenCameraFov None 60 1 Power2Out) w1 in
    snd (setTimeout ResumeOrbit w2)
  else w.

Definition exitHotspotModeExternal (w : World) : World := exitHotspotMode w.

Definition zoom (w : World) (e : bool) : World :=
  let t := if e then 85 / 100 else 115 / 100 in
  let i := zoomLevel (orbitParams w) * t in
  let w1 :=
    upd_orbit
      (fun p => set_zoomLevel
                  (JsMath.min (JsMath.max i (minZoomLevel p)) (maxZoomLevel p))
                  p) w in
  gsap_to
    (TweenCameraPosition None
       (mkVec3 (vx (cameraPosition w1) * t) (vy (cameraPosition w1) * t)
          (vz (cameraPosition w1) * t))
       (5 / 10) BackOut None) w1.

Definition resetView (w : World) : World :=
  let w1 :=
    upd_orbit (fun p => set_currentSpeed (baseSpeed p) (set_zoomLevel 1 p)) w in
  let p := orbitParams w1 in
  let e := ellipseMajorAxis p in
  let t := ellipseMinorAxis p in
  let i := inclination p in
  let o := orbitAngle p in
  let n := e * cos o in
  let s := t * sin o in
  let a := s * sin i in
  let r := s * cos i in
  gsap_to (TweenCameraPosition None (mkVec3 n a r) 1 ElasticOut None) w1.

Definition animate (w : World) : World :=
  if isOrbiting (orbitParams w) && negb (inHotspotMode (orbitParams w))
  then updateCameraPosition w else w.

(** [init] creates the camera and places it once, then creates the camera
    marker. *)
Definition init (w : World) : World :=
  set_cameraMarker (Some (mkVec3 0 0 0)) (updateCameraPosition w).

(** ** Interaction manager *)

Definition isSome {A : Type} (o : option A) : bool :=
  match o with Some _ => true | None => false end.

Definition handleMouseWheel (w : World) (deltaY now : R) : World :=
  if inHotspotMode (orbitParams w) then zoom w (JsMath.ltb deltaY 0) else
  let i := now - lastScrollTime w in
  let w1 :=
    set_scrollAccumulator (scrollAccumulator w + deltaY)
      (set_lastScrollTime now w) in
  if JsMath.ltb i 50 && isSome (scrollTimerId w1) then w1 else
  let w2 :=
    match scrollTimerId w1 with
    | Some t => clearTimeout t w1
    | None => w1
    end in
  let o := JsMath.sign (scrollAccumulator w2) in
  let n := JsMath.min (JsMath.abs (scrollAccumulator w2) / 100) 2 in
  let w3 :=
    if JsMath.gtb o 0 then
      upd_orbit
        (fun p => set_currentSpeed
                    (JsMath.max (baseSpeed p * (5 / 10))
                       (currentSpeed p * JsMath.pow (decelerationFactor p) n))
                    p) w2
    else
      upd_orbit
        (fun p => set_currentSpeed
                    (JsMath.min (maxSpeed p)
                       (currentSpeed p * JsMath.pow (accelerationFactor p) n))
                    p) w2 in
  let w4 := set_scrollAccumulator 0 w3 in
  let (t, w5) := setTimeout ScrollQuiet w4 in
  set_scrollTimerId (Some t) w5.

Definition handleArrowNavigation (w : World) (e : string) : World :=
  let i := isOrbiting (orbitParams w) in
  let w1 := upd_orbit (set_isOrbiting false) w in
  let w2 :=
    if String.eqb e "ArrowLeft" then
      upd_orbit (fun p => set_orbitAngle (orbitAngle p + 5 / 100) p) w1
    else if String.eqb e "ArrowRight" then
      upd_orbit (fun p => set_orbitAngle (orbitAngle p - 5 / 100) p) w1
    else if String.eqb e "ArrowUp" then
      (if negb (inHotspotMode (orbitParams w1)) then
         upd_orbit
           (fun p => set_inclination
                       (JsMath.min (inclination p + 3 / 100) (PI / 3)) p) w1
       else w1)
    else if String.eqb e "ArrowDown" then
      (if negb (inHotspotMode (orbitParams w1)) then
         upd_orbit
           (fun p => set_inclination
                       (JsMath.max (inclination p - 3 / 100) (1 / 10)) p) w1
       else w1)
    else w1 in
  snd (setTimeout (RestoreOrbiting i) (_updateCameraPositionManual w2)).

Definition keyIn (k : string) (ks : list string) : bool :=
  existsb (String.eqb k) ks.

Definition handleKeyDown (w : World) (key : string) : World :=
  if String.eqb key "Escape" then
    (if inHotspotMode (orbitParams w) then exitHotspotModeExternal w else w)
  else if keyIn key ["ArrowUp"; "ArrowDown"; "ArrowLeft"; "ArrowRight"]%string
  then
    (if inHotspotMode (orbitParams w) && String.eqb key "ArrowDown"
     then exitHotspotModeExternal w
     else handleArrowNavigation w key)
  else if keyIn key ["+"; "="]%string then zoom w true
  else if keyIn key ["-"; "_"]%string then zoom w false
  else if keyIn key ["r"; "R"]%string then resetView w
  else w.

(** ** Pending work: timers and tweens *)

Definition runTimer (a : TimerAction) (w : World) : World :=
  match a with
  | ResumeOrbit =>
      upd_orbit
        (fun p => set_currentSpeed (baseSpeed p) (set_isOrbiting true p)) w
  | RestoreOrbiting i => upd_orbit (set_isOrbiting i) w
  | ScrollQuiet =>
      set_scrollTimerId None
        (gsap_to
           (TweenCurrentSpeed None (baseSpeed (orbitParams w)) 3 Power2Out) w)
  end.

Definition fireTimer (w : World) (i : nat) : World :=
  match find (fun t => Nat.eqb (fst t) i) (timers w) with
  | Some t => runTimer (snd t) (clearTimeout i w)
  | None => w
  end.

Definition lerp (s e ratio : R) : R := s + (e - s) * ratio.

Definition vlerp (s e : Vec3) (ratio : R) : Vec3 :=
  mkVec3 (lerp (vx s) (vx e) ratio) (lerp (vy s) (vy e) ratio)
    (lerp (vz s) (vz e) ratio).

(** One rendering of the [k]-th running tween at the eased [ratio]. *)
Definition renderTween (w : World) (k : nat) (ratio : R) : World :=
  match nth_error (tweens w) k with
  | Some (TweenCameraPosition start target d e c) =>
      let s := match start with Some s => s | None => cameraPosition w end in
      set_tweens
        (replace_nth k (TweenCameraPosition (Some s) target d e c) (tweens w))
        (set_cameraPosition (vlerp s target ratio) w)
  | Some (TweenCameraFov start target d e) =>
      let s := match start with Some s => s | None => cameraFov w end in
      set_tweens (replace_nth k (TweenCameraFov (Some s) target d e) (tweens w))
        (set_cameraFov (lerp s target ratio) w)
  | Some (TweenCurrentSpeed start target d e) =>
      let s :=
        match start with
        | Some s => s
        | None => currentSpeed (orbitParams w)
        end in
      set_tweens
        (replace_nth k (TweenCurrentSpeed (Some s) target d e) (tweens w))
        (upd_orbit (set_currentSpeed (lerp s target ratio)) w)
  | None => w
  end.

(** The last rendering of the [k]-th tween (ratio 1), its removal and its
    [onComplete] callback. *)
Definition completeTween (w : World) (k : nat) : World :=
  match nth_error (tweens w) k with
  | Some t =>
      let w1 := renderTween w k 1 in
      let w2 := set_tweens (remove_nth k (tweens w1)) w1 in
      match t with
      | TweenCameraPosition _ _ _ _ (Some e) =>
          set_redirecting (Some e) (upd_orbit (set_inHotspotMode true) w2)
      | _ => w2
      end
  | None => w
  end.

(** ** Events and reachable states *)

Inductive Event : Type :=
| Wheel (deltaY now : R)
| KeyDown (key : string)
| Click (globeHit : option Vec3) (markerHit : option Hotspot)
| ZoomButton (zoomIn : bool)
| ResetButton
| ExitRequest
| Frame
| TimerFires (i : nat)
| TweenRenders (k : nat) (ratio : R)
| TweenCompletes (k : nat).

Definition handle (w : World) (ev : Event) : World :=
  match ev with
  | Wheel deltaY now => handleMouseWheel w deltaY now
  | KeyDown key => handleKeyDown w key
  | Click g m => onMouseClick w g m
  | ZoomButton b => zoom w b
  | ResetButton => resetView w
  | ExitRequest => exitHotspotModeExternal w
  | Frame => animate w
  | TimerFires i => fireTimer w i
  | TweenRenders k ratio => renderTween w k ratio
  | TweenCompletes k => completeTween w k
  end.

(** A rendering event is admissible when its ratio is one the tween's ease
    can produce. *)
Definition admissible (w : World) (ev : Event) : Prop :=
  match ev with
  | TweenRenders k ratio =>
      match nth_error (tweens w) k with
      | Some t => easeAdmits (tweenEase t) ratio
      | None => True
      end
  | _ => True
  end.

(** The catalogue [V] loaded by the application. *)
Definition catalogue : list Hotspot :=
  [ mkHotspot "grande-barriere" "Grande Barrière de Corail"
      (mkGeo (-182871 / 10000) (1476992 / 10000));
    mkHotspot "abysses" "Les Abysses"
      (mkGeo (-109638 / 10000) (-1766333 / 10000));
    mkHotspot "arctique" "Océan Arctique"
      (mkGeo (789634 / 10000) (125847 / 10000));
    mkHotspot "plastique" "Pollution Plastique"
      (mkGeo (283699 / 10000) (-1444089 / 10000));
    mkHotspot "triangle-corail" "Triangle de Corail"
      (mkGeo (7893 / 10000) (1278641 / 10000));
    mkHotspot "requins" "Requins en Danger"
      (mkGeo (24287 / 1000) (-776843 / 10000)) ]%string.

(** The application constructs the globe manager, runs a first frame and
    loads the catalogue. *)
Definition initial : World :=
  addHotspots catalogue (animate (init constructed)).

Inductive reachable : World -> Prop :=
| reachable_initial : reachable initial
| reachable_handle (w : World) (ev : Event) :
    reachable w -> admissible w ev -> reachable (handle w ev).

Definition run (w : World) (evs : list Event) : World :=
  fold_left handle evs w.

(** ** Hotspot visibility and label layout ([addHotspotLabel]) *)

Module Labels.

(** The closure [a] of [addHotspotLabel].  [c] is the hotspot position
    projected by the camera (normalised device coordinates), [hit] the
    distance of the first intersection of the ray from the camera towards
    the hotspot with the globe, if any, and [E] the distance from the
    camera to the hotspot. *)
Definition hotspotVisible (c : Vec3) (hit : option R) (E : R) : bool :=
  if JsMath.gtb (vz c) 1 || JsMath.ltb (vx c) (-1) || JsMath.gtb (vx c) 1
     || JsMath.ltb (vy c) (-1) || JsMath.gtb (vy c) 1
  then false
  else match hit with
       | Some h => JsMath.gtb h (E - 1 / 10)
       | None => true
       end.

Record LabelStyle : Type := mkLabelStyle {
  labelLeft : R;
  labelTop : R;
  connectorLeft : R;
  connectorTop : R;
  connectorWidth : R;
  connectorRotate : R }.

(** The position of the label of a shown hotspot; [t] is the title.  The
    length of [t] is its number of characters, one byte each in the model
    (an accented letter of a title is one character for the code). *)
Definition labelPosition (c : Vec3) (innerWidth innerHeight : R) (t : string)
  : R * R :=
  let p := (vx c * (5 / 10) + 5 / 10) * innerWidth in
  let u := (- vy c * (5 / 10) + 5 / 10) * innerHeight in
  let m := innerWidth / 2 in
  let h := innerHeight / 2 in
  let E := sqrt (JsMath.pow2 (p - m) + JsMath.pow2 (u - h)) in
  let w := JsMath.atan2 (u - h) (p - m) in
  let M := JsMath.min m h * (6 / 10) in
  if JsMath.ltb E M then
    let S := M + 60 + sin (w * 5) * 20 in
    let g := m + cos w * S in
    let b := h + sin w * S in
    let f := 20 in
    let g := if JsMath.ltb g f then f else g in
    let g := if JsMath.gtb g (innerWidth - f) then innerWidth - f else g in
    let b := if JsMath.ltb b f then f else b in
    let b := if JsMath.gtb b (innerHeight - f) then innerHeight - f else b in
    (g, b)
  else
    let S := INR (String.length t) * 8 in
    let f := 25 + S * (25 / 100) in
    let P := 10 in
    let g := if JsMath.gtb (p + f + S) (innerWidth - 20) then p - f - S
             else p + f in
    let b := if JsMath.ltb (u - P - 30) 20 then u + P else u - P in
    (g, b).

(** [onBeforeRender]: [Some] style when label and connector are shown
    (opacity 1), [None] when they are hidden (opacity 0). *)
Definition onBeforeRender (c : Vec3) (hit : option R) (E : R)
    (inHotspotMode : bool) (innerWidth innerHeight : R) (t : string)
  : option LabelStyle :=
  if hotspotVisible c hit E && negb inHotspotMode then
    let p := (vx c * (5 / 10) + 5 / 10) * innerWidth in
    let u := (- vy c * (5 / 10) + 5 / 10) * innerHeight in
    let (g, b) := labelPosition c innerWidth innerHeight t in
    let G := sqrt (JsMath.pow2 (g - p) + JsMath.pow2 (b - u)) in
    let F := JsMath.atan2 (b - u) (g - p) in
    Some (mkLabelStyle g b p u G F)
  else None.

(** The label keeps the 20 pixel margin to every viewport edge. *)
Definition withinMargin (innerWidth innerHeight : R) (l : R * R) : Prop :=
  20 <= fst l <= innerWidth - 20 /\ 20 <= snd l <= innerHeight - 20.

(** The projection leaves the normalised device bounds, or lies behind the
    camera (depth beyond 1). *)
Definition outsideView (c : Vec3) : Prop :=
  vz c > 1 \/ vx c < -1 \/ vx c > 1 \/ vy c < -1 \/ vy c > 1.

End Labels.

(** ** Readings of the specification *)

(** The specification's four modes.  The code stores two flags and no mode
    field; a mode is read off the state: locked once [inHotspotMode] is
    set, in transition to focus while the camera animation started by an
    activation is running, in transition to orbit while the resumption
    timer of [exitHotspotMode] is pending. *)
Inductive Mode : Type :=
| Orbiting
| TransitioningToFocus
| Locked
| TransitioningToOrbit.

Definition isActivationTween (t : Tween) : bool :=
  match t with
  | TweenCameraPosition _ _ _ _ (Some _) => true
  | _ => false
  end.

Definition isResumeTimer (t : nat * TimerAction) : bool :=
  match snd t with
  | ResumeOrbit => true
  | _ => false
  end.

Definition modeOf (w : World) : Mode :=
  if inHotspotMode (orbitParams w) then Locked
  else if existsb isActivationTween (tweens w) then TransitioningToFocus
  else if existsb isResumeTimer (timers w) then TransitioningToOrbit
  else Orbiting.

(** The speed update of a scroll batch as the specification words it:
    magnitude factor [n = min(|D|/100, 2)], lower clamp when decelerating
    (positive accumulated delta), upper clamp when accelerating. *)
Definition magnitudeFactor (D : R) : R := Rmin (Rabs D / 100) 2.

Definition speedAfterBatch (p : OrbitParams) (D : R) : R :=
  if Rlt_dec 0 D then
    Rmax (baseSpeed p * (1 / 2))
      (currentSpeed p * Rpower (decelerationFactor p) (magnitudeFactor D))
  else
    Rmin (maxSpeed p)
      (currentSpeed p * Rpower (accelerationFactor p) (magnitudeFactor D)).

(** A scroll event is coalesced when it follows the previous one by less
    than 50 ms while a quiet-period timer is pending. *)
Definition coalesced (w : World) (now : R) : Prop :=
  now - lastScrollTime w < 50 /\ scrollTimerId w <> None.

(** The zoom step as the specification words it. *)
Definition zoomFactor (zoomIn : bool) : R :=
  if zoomIn then 85 / 100 else 115 / 100.

Definition clampZoom (p : OrbitParams) (z : R) : R :=
  Rmin (Rmax z (minZoomLevel p)) (maxZoomLevel p).

Definition zoomInRange (p : OrbitParams) : Prop :=
  minZoomLevel p <= zoomLevel p <= maxZoomLevel p.

Definition speedInRange (p : OrbitParams) : Prop :=
  baseSpeed p * (1 / 2) <= currentSpeed p <= maxSpeed p.

(** ** Invariants of the reachable states *)

(** The constants of the orbit, which no operation writes. *)
Definition constantsOf (p : OrbitParams) : R * R * R * R * (R * R * R * R) :=
  (baseSpeed p, maxSpeed p, accelerationFactor p, decelerationFactor p,
   (ellipseMajorAxis p, ellipseMinorAxis p, maxZoomLevel p, minZoomLevel p)).

Definition constantsOk (p : OrbitParams) : Prop :=
  0 < baseSpeed p <= maxSpeed p /\
  0 < decelerationFactor p <= 1 /\
  1 <= accelerationFactor p.

(** A running speed restoration heads for the base speed with a power
    ease, from a start value inside the speed range. *)
Definition speedTweenOk (bs ms : R) (t : Tween) : Prop :=
  match t with
  | TweenCurrentSpeed start target _ e =>
      e = Power2Out /\ target = bs /\
      match start with
      | Some s => bs * (1 / 2) <= s <= ms
      | None => True
      end
  | _ => True
  end.

Definition inSpeedRange (p : OrbitParams) (v : R) : Prop :=
  baseSpeed p * (1 / 2) <= v <= maxSpeed p.

Definition speedInvariant (w : World) : Prop :=
  constantsOk (orbitParams w) /\
  speedInRange (orbitParams w) /\
  Forall (speedTweenOk (baseSpeed (orbitParams w)) (maxSpeed (orbitParams w)))
    (tweens w).

(** * Facts *)

(** ** Arithmetic of the [Math] functions *)

Lemma ltb_true (x y : R) : JsMath.ltb x y = true <-> x < y.
Proof.
  unfold JsMath.ltb; destruct (Rlt_dec x y); split; intros; try easy.
Qed.

Lemma ltb_false (x y : R) : JsMath.ltb x y = false <-> y <= x.
Proof.
  unfold JsMath.ltb; destruct (Rlt_dec x y); split; intros; try easy; lra.
Qed.

Lemma gtb_true (x y : R) : JsMath.gtb x y = true <-> x > y.
Proof. unfold JsMath.gtb. rewrite ltb_true. lra. Qed.

Lemma gtb_false (x y : R) : JsMath.gtb x y = false <-> x <= y.
Proof. unfold JsMath.gtb. rewrite ltb_false. lra. Qed.

Lemma ln_nonpos (d : R) : 0 < d <= 1 -> ln d <= 0.
Proof.
  intros [Hd0 Hd1]. destruct (Req_dec d 1) as [->|Hne].
  - rewrite ln_1. lra.
  - left. rewrite <- ln_1. apply ln_increasing; lra.
Qed.

Lemma ln_nonneg (a : R) : 1 <= a -> 0 <= ln a.
Proof.
  intros Ha. destruct (Req_dec a 1) as [->|Hne].
  - rewrite ln_1. lra.
  - left. rewrite <- ln_1. apply ln_increasing; lra.
Qed.

Lemma exp_le_1 (x : R) : x <= 0 -> exp x <= 1.
Proof.
  intros [Hlt | ->].
  - left. rewrite <- exp_0. now apply exp_increasing.
  - rewrite exp_0. lra.
Qed.

Lemma exp_ge_1 (x : R) : 0 <= x -> 1 <= exp x.
Proof.
  intros [Hlt | <-].
  - left. rewrite <- exp_0. now apply exp_increasing.
  - rewrite exp_0. lra.
Qed.

Lemma pow_le_1 (d n : R) : 0 < d <= 1 -> 0 <= n -> JsMath.pow d n <= 1.
Proof.
  intros Hd Hn. unfold JsMath.pow, Rpower. apply exp_le_1.
  pose proof (ln_nonpos d Hd). nra.
Qed.

Lemma pow_ge_1 (a n : R) : 1 <= a -> 0 <= n -> 1 <= JsMath.pow a n.
Proof.
  intros Ha Hn. unfold JsMath.pow, Rpower. apply exp_ge_1.
  pose proof (ln_nonneg a Ha). nra.
Qed.

Lemma pow_pos (x y : R) : 0 < JsMath.pow x y.
Proof. unfold JsMath.pow, Rpower. apply exp_pos. Qed.

Lemma magnitude_nonneg (x : R) : 0 <= JsMath.min (JsMath.abs x / 100) 2.
Proof.
  unfold JsMath.min, JsMath.abs. apply Rmin_glb; [|lra].
  pose proof (Rabs_pos x). lra.
Qed.

Lemma sign_positive (x : R) : JsMath.gtb (JsMath.sign x) 0 = true <-> 0 < x.
Proof.
  rewrite gtb_true. unfold JsMath.sign.
  destruct (Rlt_dec 0 x); [|destruct (Rlt_dec x 0)]; split; intros; lra.
Qed.

Lemma clamp_in_range (z lo hi : R) :
  lo <= hi -> lo <= JsMath.min (JsMath.max z lo) hi <= hi.
Proof.
  intros H. unfold JsMath.min, JsMath.max, Rmin, Rmax.
  destruct (Rle_dec z lo); destruct (Rle_dec _ hi); lra.
Qed.

Lemma lerp_between (s e r lo hi : R) :
  lo <= s <= hi -> lo <= e <= hi -> 0 <= r <= 1 ->
  lo <= lerp s e r <= hi.
Proof. unfold lerp. intros. nra. Qed.

(** ** Lists of pending work *)

Lemma Forall_replace_nth {A : Type} (P : A -> Prop) (l : list A) :
  forall k x, Forall P l -> P x -> Forall P (replace_nth k x l).
Proof.
  induction l as [|y l IH]; intros [|k] x Hl Hx; simpl; auto;
    inversion Hl; subst; constructor; auto.
Qed.

Lemma Forall_remove_nth {A : Type} (P : A -> Prop) (l : list A) :
  forall k, Forall P l -> Forall P (remove_nth k l).
Proof.
  induction l as [|y l IH]; intros [|k] Hl; simpl; auto;
    inversion Hl; subst; auto.
Qed.

Lemma Forall_snoc {A : Type} (P : A -> Prop) (l : list A) (x : A) :
  Forall P l -> P x -> Forall P (l ++ [x]).
Proof. intros Hl Hx. apply Forall_app. split; auto. Qed.

Lemma Forall_nth_error {A : Type} (P : A -> Prop) (l : list A) :
  forall k x, Forall P l -> nth_error l k = Some x -> P x.
Proof.
  intros k x Hl Hk. rewrite Forall_forall in Hl. apply Hl.
  eapply nth_error_In; eauto.
Qed.
(** C1 (evaluation at the failing input): the marker of latitude 0 and
    longitude 0 is placed at (2.1, 0, 0), and the click conversion maps that
    point to latitude 0 and longitude -180, so the round trip misses the
    original longitude by 180 degrees. *)
Theorem C1_round_trip_origin_shifts_longitude :
  Geodesy.geoToSurface (mkGeo 0 0) = mkVec3 (21 / 10) 0 0 /\
  Geodesy.surfaceToGeo (Geodesy.geoToSurface (mkGeo 0 0)) = mkGeo 0 (-180) /\
  ~ Geodesy.roundTripWithin (1 / 1000000) (mkGeo 0 0).
Proof.
  assert (Hfwd : Geodesy.geoToSurface (mkGeo 0 0) = mkVec3 (21 / 10) 0 0).
  { unfold Geodesy.geoToSurface; simpl.
    rewrite Rmult_0_l, cos_0, sin_0. f_equal; lra. }
  assert (Hbwd : Geodesy.surfaceToGeo (mkVec3 (21 / 10) 0 0) = mkGeo 0 (-180)).
  { unfold Geodesy.surfaceToGeo, JsMath.atan2; simpl.
    destruct (Rlt_dec 0 (21 / 10)) as [_|Hn]; [|exfalso; lra].
    replace (0 / 2) with 0 by lra. replace (0 / (21 / 10)) with 0 by lra.
    rewrite acos_0, atan_0.
    pose proof PI_RGT_0 as Hpi.
    f_equal; field; lra. }
  split; [exact Hfwd|]. split; [rewrite Hfwd; exact Hbwd|].
  unfold Geodesy.roundTripWithin. rewrite Hfwd, Hbwd. simpl.
  intros [_ H]. replace (-180 - 0) with (-180) in H by lra.
  rewrite Rabs_left in H; lra.
Qed.

(** ** Camera on the ellipse *)

(** C7: the time-driven update [updateCameraPosition] (which runs while
    orbiting) and the event-driven [_updateCameraPositionManual] place the
    camera at the same point whenever orbit angle, ellipse axes, zoom level
    and inclination agree. *)
Theorem C7_same_ellipse_formula (w1 w2 : World) :
  isOrbiting (orbitParams w1) = true ->
  orbitAngle (orbitParams w1) = orbitAngle (orbitParams w2) ->
  ellipseMajorAxis (orbitParams w1) = ellipseMajorAxis (orbitParams w2) ->
  ellipseMinorAxis (orbitParams w1) = ellipseMinorAxis (orbitParams w2) ->
  zoomLevel (orbitParams w1) = zoomLevel (orbitParams w2) ->
  inclination (orbitParams w1) = inclination (orbitParams w2) ->
  cameraPosition (updateCameraPosition w1) =
  cameraPosition (_updateCameraPositionManual w2).
Proof.
  intros Horb Ha Hmaj Hmin Hz Hi.
  unfold updateCameraPosition, _updateCameraPositionManual.
  rewrite Horb; simpl. now rewrite Ha, Hmaj, Hmin, Hz, Hi.
Qed.

Lemma C7_same_ellipse_formula_witness :
  cameraPosition (updateCameraPosition initial) =
  cameraPosition (_updateCameraPositionManual initial).
Proof.
  apply (C7_same_ellipse_formula initial initial); reflexivity.
Defined.

(** ** Zoom *)

Lemma zoom_zoomLevel (w : World) (e : bool) :
  zoomLevel (orbitParams (zoom w e)) =
  clampZoom (orbitParams w) (zoomLevel (orbitParams w) * zoomFactor e).
Proof. destruct e; reflexivity. Qed.

Lemma zoom_bounds (w : World) (e : bool) :
  minZoomLevel (orbitParams (zoom w e)) = minZoomLevel (orbitParams w) /\
  maxZoomLevel (orbitParams (zoom w e)) = maxZoomLevel (orbitParams w).
Proof. split; reflexivity. Qed.

Lemma zoom_in_range (w : World) (e : bool) :
  minZoomLevel (orbitParams w) <= maxZoomLevel (orbitParams w) ->
  zoomInRange (orbitParams (zoom w e)).
Proof.
  intros H. unfold zoomInRange. rewrite zoom_zoomLevel.
  destruct (zoom_bounds w e) as [-> ->].
  unfold clampZoom. now apply clamp_in_range.
Qed.

(** C4: every zoom call multiplies the zoom level by 0.85 or by 1.15 and
    clamps the product; starting inside the zoom range, the level is inside
    the range after any sequence of calls. *)
Theorem C4_zoom_stays_in_range (w : World) (es : list bool) :
  zoomInRange (orbitParams w) ->
  zoomInRange (orbitParams (fold_left zoom es w)) /\
  forall e : bool,
    let w' := fold_left zoom es w in
    zoomLevel (orbitParams (zoom w' e)) =
    Rmin (Rmax (zoomLevel (orbitParams w') * (if e then 85 / 100 else 115 / 100))
            (minZoomLevel (orbitParams w')))
      (maxZoomLevel (orbitParams w')).
Proof.
  intros H. split.
  - revert w H. induction es as [|e es IH]; intros w H; simpl; [exact H|].
    apply IH. apply zoom_in_range. unfold zoomInRange in H. lra.
  - intros e w'. apply zoom_zoomLevel.
Qed.

Lemma C4_zoom_stays_in_range_witness :
  zoomInRange (orbitParams (fold_left zoom [true; true; false] initial)).
Proof.
  apply (C4_zoom_stays_in_range initial [true; true; false]).
  unfold zoomInRange; simpl; lra.
Defined.

(** C10: a zoom call writes the zoom level and starts one camera
    animation towards the camera position scaled by the step factor, which
    the camera reaches when that animation completes; orbit angle, speeds,
    inclination, ellipse axes and both mode flags keep their values. *)
Theorem C10_zoom_frame (w : World) (e : bool) :
  let w' := zoom w e in
  let t := if e then 85 / 100 else 115 / 100 in
  let target :=
    mkVec3 (vx (cameraPosition w) * t) (vy (cameraPosition w) * t)
      (vz (cameraPosition w) * t) in
  orbitAngle (orbitParams w') = orbitAngle (orbitParams w) /\
  currentSpeed (orbitParams w') = currentSpeed (orbitParams w) /\
  baseSpeed (orbitParams w') = baseSpeed (orbitParams w) /\
  inclination (orbitParams w') = inclination (orbitParams w) /\
  ellipseMajorAxis (orbitParams w') = ellipseMajorAxis (orbitParams w) /\
  ellipseMinorAxis (orbitParams w') = ellipseMinorAxis (orbitParams w) /\
  inHotspotMode (orbitParams w') = inHotspotMode (orbitParams w) /\
  isOrbiting (orbitParams w') = isOrbiting (orbitParams w) /\
  set_tweens (tweens w) (upd_orbit (set_zoomLevel (zoomLevel (orbitParams w))) w')
  = w /\
  tweens w' =
    (tweens w ++ [TweenCameraPosition None target (5 / 10) BackOut None])%list /\
  cameraPosition (completeTween w' (List.length (tweens w))) = target.
Proof.
  cbv zeta. repeat split; try reflexivity.
  - destruct w as [p ? ? ? ? ? ? ? ? ? ? ?]; destruct p; reflexivity.
  - unfold completeTween, renderTween, zoom, gsap_to, set_tweens; simpl.
    rewrite nth_error_app2 by lia. rewrite Nat.sub_diag; simpl.
    unfold vlerp, lerp; simpl. f_equal; ring.
Qed.

(** ** Scroll batches *)

(** C5: a scroll event that is not coalesced processes the accumulated
    delta [D]: with [n = min(|D|/100, 2)] the new speed is
    [max(baseSpeed*0.5, currentSpeed * decelerationFactor^n)] when
    decelerating ([D] positive) and
    [min(maxSpeed, currentSpeed * accelerationFactor^n)] when accelerating,
    and the accumulator is emptied. *)
Theorem C5_scroll_batch_speed (w : World) (deltaY now : R) :
  inHotspotMode (orbitParams w) = false ->
  ~ coalesced w now ->
  let D := scrollAccumulator w + deltaY in
  let w' := handleMouseWheel w deltaY now in
  magnitudeFactor D = Rmin (Rabs D / 100) 2 /\
  currentSpeed (orbitParams w') = speedAfterBatch (orbitParams w) D /\
  scrollAccumulator w' = 0.
Proof.
  intros Hmode Hco D w'. split; [reflexivity|].
  assert (Hgate : JsMath.ltb (now - lastScrollTime w) 50
                  && isSome (scrollTimerId w) = false).
  { destruct (JsMath.ltb (now - lastScrollTime w) 50) eqn:Hlt; simpl; auto.
    destruct (scrollTimerId w) eqn:Hid; simpl; auto.
    exfalso. apply Hco. split; [now apply ltb_true|]. now rewrite Hid. }
  subst w'. unfold handleMouseWheel. rewrite Hmode. simpl.
  rewrite Hgate.
  assert (Hacc : forall w0 : World,
            scrollAccumulator
              (match scrollTimerId w0 with
               | Some t => clearTimeout t w0
               | None => w0
               end) = scrollAccumulator w0)
    by (intros w0; destruct (scrollTimerId w0); reflexivity).
  assert (Horb : forall w0 : World,
            orbitParams
              (match scrollTimerId w0 with
               | Some t => clearTimeout t w0
               | None => w0
               end) = orbitParams w0)
    by (intros w0; destruct (scrollTimerId w0); reflexivity).
  unfold speedAfterBatch, magnitudeFactor.
  destruct (scrollTimerId w) eqn:Hid; simpl; fold D;
    (destruct (JsMath.gtb (JsMath.sign D) 0) eqn:Hs;
     [ apply sign_positive in Hs
     | assert (~ 0 < D) by (intros Hp; apply sign_positive in Hp; congruence) ];
     destruct (Rlt_dec 0 D); try contradiction; simpl;
     (split; [|reflexivity]);
     unfold JsMath.max, JsMath.min, JsMath.abs, JsMath.pow;
     f_equal; lra).
Qed.

Lemma C5_scroll_batch_speed_witness :
  currentSpeed (orbitParams (handleMouseWheel initial 100 1000)) =
  speedAfterBatch (orbitParams initial) (scrollAccumulator initial + 100).
Proof.
  apply (C5_scroll_batch_speed initial 100 1000).
  - reflexivity.
  - intros [_ H]. apply H. reflexivity.
Defined.

(** ** The speed range is an invariant *)

Lemma constants_initial : constantsOk (orbitParams initial).
Proof. unfold constantsOk; simpl; lra. Qed.

Lemma speedInvariant_initial : speedInvariant initial.
Proof.
  split; [exact constants_initial|]. split.
  - unfold speedInRange; simpl; lra.
  - simpl. constructor.
Qed.

(** Operations that leave speeds, constants and speed tweens alone. *)
Lemma speedInvariant_frame (w w' : World) :
  baseSpeed (orbitParams w') = baseSpeed (orbitParams w) ->
  maxSpeed (orbitParams w') = maxSpeed (orbitParams w) ->
  accelerationFactor (orbitParams w') = accelerationFactor (orbitParams w) ->
  decelerationFactor (orbitParams w') = decelerationFactor (orbitParams w) ->
  inSpeedRange (orbitParams w) (currentSpeed (orbitParams w')) ->
  Forall (speedTweenOk (baseSpeed (orbitParams w)) (maxSpeed (orbitParams w)))
    (tweens w') ->
  speedInvariant w -> speedInvariant w'.
Proof.
  intros Hb Hm Ha Hd Hs Ht (Hc & Hr & _).
  unfold speedInvariant, constantsOk, speedInRange in *.
  rewrite Hb, Hm, Ha, Hd. repeat split; try tauto; apply Hs || exact Ht.
Qed.

Ltac frame_from w H :=
  apply (speedInvariant_frame w); [reflexivity .. | | | exact H].

Lemma speed_kept (w : World) :
  speedInvariant w ->
  inSpeedRange (orbitParams w) (currentSpeed (orbitParams w)).
Proof. intros (_ & Hr & _). exact Hr. Qed.

Lemma base_in_range (w : World) :
  speedInvariant w ->
  inSpeedRange (orbitParams w) (baseSpeed (orbitParams w)).
Proof.
  intros ((Hb & _) & _). unfold inSpeedRange. lra.
Qed.

Lemma tweens_kept (w : World) :
  speedInvariant w ->
  Forall (speedTweenOk (baseSpeed (orbitParams w)) (maxSpeed (orbitParams w)))
    (tweens w).
Proof. intros (_ & _ & Ht). exact Ht. Qed.

Lemma speedInvariant_zoom (w : World) (e : bool) :
  speedInvariant w -> speedInvariant (zoom w e).
Proof.
  intros H. frame_from w H.
  - exact (speed_kept w H).
  - simpl. apply Forall_snoc; [exact (tweens_kept w H)|exact I].
Qed.

Lemma speedInvariant_resetView (w : World) :
  speedInvariant w -> speedInvariant (resetView w).
Proof.
  intros H. frame_from w H.
  - exact (base_in_range w H).
  - simpl. apply Forall_snoc; [exact (tweens_kept w H)|exact I].
Qed.

Lemma speedInvariant_activateHotspot (w : World) (e : Hotspot) :
  speedInvariant w -> speedInvariant (activateHotspot w e).
Proof.
  intros H. unfold activateHotspot.
  destruct (inHotspotMode (orbitParams w)); [exact H|].
  frame_from w H.
  - exact (speed_kept w H).
  - simpl. repeat apply Forall_snoc; try exact I. exact (tweens_kept w H).
Qed.

Lemma speedInvariant_onMouseClick (w : World) (g : option Vec3)
    (m : option Hotspot) :
  speedInvariant w -> speedInvariant (onMouseClick w g m).
Proof.
  intros H. unfold onMouseClick.
  destruct (inHotspotMode (orbitParams w)); [exact H|].
  destruct g as [o|];
    [destruct (_findNearestHotspot w _ _ 10);
      [now apply speedInvariant_activateHotspot|]|];
    (destruct m; [now apply speedInvariant_activateHotspot|exact H]).
Qed.

Lemma speedInvariant_exitHotspotMode (w : World) :
  speedInvariant w -> speedInvariant (exitHotspotMode w).
Proof.
  intros H. unfold exitHotspotMode.
  destruct (inHotspotMode (orbitParams w)); [|exact H].
  frame_from w H.
  - exact (speed_kept w H).
  - simpl. apply Forall_snoc; [exact (tweens_kept w H)|exact I].
Qed.

Lemma speedInvariant_updateCameraPosition (w : World) :
  speedInvariant w -> speedInvariant (updateCameraPosition w).
Proof.
  intros H. unfold updateCameraPosition.
  destruct (isOrbiting (orbitParams w)); simpl; [|exact H].
  frame_from w H; [exact (speed_kept w H)|exact (tweens_kept w H)].
Qed.

Lemma speedInvariant_animate (w : World) :
  speedInvariant w -> speedInvariant (animate w).
Proof.
  intros H. unfold animate.
  destruct (_ && _); [now apply speedInvariant_updateCameraPosition|exact H].
Qed.

Lemma speedInvariant_handleArrowNavigation (w : World) (e : string) :
  speedInvariant w -> speedInvariant (handleArrowNavigation w e).
Proof.
  intros H. unfold handleArrowNavigation.
  repeat match goal with
         | |- context [if ?c then _ else _] => destruct c; simpl
         end;
    (frame_from w H; [exact (speed_kept w H)|exact (tweens_kept w H)]).
Qed.

Lemma speedInvariant_handleKeyDown (w : World) (key : string) :
  speedInvariant w -> speedInvariant (handleKeyDown w key).
Proof.
  intros H. unfold handleKeyDown, exitHotspotModeExternal.
  repeat match goal with
         | |- context [if ?c then _ else _] => destruct c
         end;
    auto using speedInvariant_exitHotspotMode,
      speedInvariant_handleArrowNavigation, speedInvariant_zoom,
      speedInvariant_resetView.
Qed.

Lemma decelerated_in_range (p : OrbitParams) (n : R) :
  constantsOk p -> speedInRange p -> 0 <= n ->
  inSpeedRange p
    (JsMath.max (baseSpeed p * (5 / 10))
       (currentSpeed p * JsMath.pow (decelerationFactor p) n)).
Proof.
  intros (Hb & Hd & _) Hr Hn. unfold inSpeedRange, speedInRange in *.
  pose proof (pow_le_1 _ n Hd Hn) as Hle.
  pose proof (pow_pos (decelerationFactor p) n) as Hpos.
  unfold JsMath.max, Rmax. destruct (Rle_dec _ _); nra.
Qed.

Lemma accelerated_in_range (p : OrbitParams) (n : R) :
  constantsOk p -> speedInRange p -> 0 <= n ->
  inSpeedRange p
    (JsMath.min (maxSpeed p)
       (currentSpeed p * JsMath.pow (accelerationFactor p) n)).
Proof.
  intros (Hb & _ & Ha) Hr Hn. unfold inSpeedRange, speedInRange in *.
  pose proof (pow_ge_1 _ n Ha Hn) as Hge.
  unfold JsMath.min, Rmin. destruct (Rle_dec _ _); nra.
Qed.

Lemma speedInvariant_handleMouseWheel (w : World) (deltaY now : R) :
  speedInvariant w -> speedInvariant (handleMouseWheel w deltaY now).
Proof.
  intros H. unfold handleMouseWheel.
  destruct (inHotspotMode (orbitParams w)); [now apply speedInvariant_zoom|].
  destruct (_ && _).
  - frame_from w H; [exact (speed_kept w H)|exact (tweens_kept w H)].
  - destruct H as (Hc & Hr & Ht).
    pose proof (magnitude_nonneg (scrollAccumulator w + deltaY)) as Hn.
    simpl. destruct (scrollTimerId w); simpl;
      (destruct (JsMath.gtb _ 0); simpl;
       (apply (speedInvariant_frame w);
        [reflexivity .. | | exact Ht | exact (conj Hc (conj Hr Ht))]);
       simpl;
       [now apply decelerated_in_range|now apply accelerated_in_range]).
Qed.

Lemma speedInvariant_runTimer (w w0 : World) (a : TimerAction) :
  orbitParams w0 = orbitParams w -> tweens w0 = tweens w ->
  speedInvariant w -> speedInvariant (runTimer a w0).
Proof.
  intros Ho Htw H. destruct a; simpl.
  - apply (speedInvariant_frame w); simpl; rewrite ?Ho, ?Htw;
      try reflexivity; try exact H;
      [exact (base_in_range w H)|exact (tweens_kept w H)].
  - apply (speedInvariant_frame w); simpl; rewrite ?Ho, ?Htw;
      try reflexivity; try exact H;
      [exact (speed_kept w H)|exact (tweens_kept w H)].
  - apply (speedInvariant_frame w); simpl; rewrite ?Ho, ?Htw;
      try reflexivity; try exact H; [exact (speed_kept w H)|].
    apply Forall_snoc; [exact (tweens_kept w H)|].
    simpl. auto.
Qed.

Lemma speedInvariant_fireTimer (w : World) (i : nat) :
  speedInvariant w -> speedInvariant (fireTimer w i).
Proof.
  intros H. unfold fireTimer.
  destruct (find _ (timers w)); [|exact H].
  now apply (speedInvariant_runTimer w).
Qed.

Lemma speedInvariant_renderTween (w : World) (k : nat) (ratio : R) :
  admissible w (TweenRenders k ratio) ->
  speedInvariant w -> speedInvariant (renderTween w k ratio).
Proof.
  intros Hadm H. unfold renderTween. simpl in Hadm.
  pose proof (tweens_kept w H) as Ht.
  destruct (nth_error (tweens w) k) as [t|] eqn:Hk; [|exact H].
  pose proof (Forall_nth_error _ _ _ _ Ht Hk) as Hok.
  destruct t as [start target d e c|start target d e|start target d e].
  - frame_from w H; [exact (speed_kept w H)|].
    simpl. apply Forall_replace_nth; [exact Ht|exact I].
  - frame_from w H; [exact (speed_kept w H)|].
    simpl. apply Forall_replace_nth; [exact Ht|exact I].
  - simpl in Hok, Hadm. destruct Hok as (-> & -> & Hstart).
    simpl in Hadm.
    assert (Hs : inSpeedRange (orbitParams w)
                   (match start with
                    | Some s => s
                    | None => currentSpeed (orbitParams w)
                    end)).
    { destruct start; [exact Hstart|exact (speed_kept w H)]. }
    frame_from w H.
    + simpl. apply lerp_between; auto. exact (base_in_range w H).
    + simpl. apply Forall_replace_nth; [exact Ht|].
      simpl. auto.
Qed.

Lemma speedInvariant_completeTween (w : World) (k : nat) :
  speedInvariant w -> speedInvariant (completeTween w k).
Proof.
  intros H. unfold completeTween.
  destruct (nth_error (tweens w) k) as [t|] eqn:Hk; [|exact H].
  assert (H1 : speedInvariant (renderTween w k 1)).
  { apply speedInvariant_renderTween; [|exact H].
    simpl. rewrite Hk. destruct (tweenEase t); simpl; auto; lra. }
  set (w1 := renderTween w k 1) in *.
  assert (H2 : speedInvariant (set_tweens (remove_nth k (tweens w1)) w1)).
  { frame_from w1 H1; [exact (speed_kept w1 H1)|].
    simpl. apply Forall_remove_nth. exact (tweens_kept w1 H1). }
  destruct t as [start target d e [h|]|start target d e|start target d e];
    exact H2.
Qed.

Lemma speedInvariant_handle (w : World) (ev : Event) :
  admissible w ev -> speedInvariant w -> speedInvariant (handle w ev).
Proof.
  intros Hadm H. destruct ev; simpl;
    auto using speedInvariant_handleMouseWheel, speedInvariant_handleKeyDown,
      speedInvariant_onMouseClick, speedInvariant_zoom,
      speedInvariant_resetView, speedInvariant_exitHotspotMode,
      speedInvariant_animate, speedInvariant_fireTimer,
      speedInvariant_renderTween, speedInvariant_completeTween.
Qed.

Lemma speedInvariant_reachable (w : World) :
  reachable w -> speedInvariant w.
Proof.
  induction 1 as [|w ev _ IH Hadm].
  - exact speedInvariant_initial.
  - now apply speedInvariant_handle.
Qed.

(** C2: in every state reachable from the initial one by scroll events
    (decelerating, accelerating or coalesced), key presses, clicks, zoom and
    reset commands, focus exits, frames, expiring timers (the quiet-period
    timer and the resumption after a focus exit among them) and renderings
    of the speed restoration, the current speed lies between half the base
    speed and the maximal speed. *)
Theorem C2_speed_stays_in_range (w : World) :
  reachable w ->
  baseSpeed (orbitParams w) * (1 / 2) <= currentSpeed (orbitParams w)
  /\ currentSpeed (orbitParams w) <= maxSpeed (orbitParams w).
Proof.
  intros H. destruct (speedInvariant_reachable w H) as (_ & Hr & _).
  exact Hr.
Qed.

Lemma C2_speed_stays_in_range_witness :
  baseSpeed (orbitParams (handle initial (Wheel 250 1000))) * (1 / 2)
  <= currentSpeed (orbitParams (handle initial (Wheel 250 1000)))
  /\ currentSpeed (orbitParams (handle initial (Wheel 250 1000)))
     <= maxSpeed (orbitParams (handle initial (Wheel 250 1000))).
Proof.
  apply (C2_speed_stays_in_range (handle initial (Wheel 250 1000))).
  apply reachable_handle; [exact reachable_initial|exact I].
Defined.

(** ** Speed factors *)

Lemma constants_handle (w : World) (ev : Event) :
  constantsOf (orbitParams (handle w ev)) = constantsOf (orbitParams w).
Proof.
  destruct ev; simpl;
    unfold handleMouseWheel, handleKeyDown, onMouseClick, exitHotspotModeExternal,
      exitHotspotMode, handleArrowNavigation, activateHotspot, animate,
      updateCameraPosition, fireTimer, runTimer, completeTween, renderTween;
    repeat match goal with
           | |- context [if ?c then _ else _] => destruct c; simpl
           | |- context [match ?c with _ => _ end] => destruct c; simpl
           end;
    reflexivity.
Qed.

Lemma constants_reachable (w : World) :
  reachable w -> constantsOf (orbitParams w) = constantsOf (orbitParams initial).
Proof.
  induction 1 as [|w ev _ IH _]; [reflexivity|].
  now rewrite constants_handle.
Qed.

(** C9 (as stated, refuted): the initial deceleration factor is 0.9, which
    is not above 1. *)
Lemma C9_deceleration_factor_not_above_one :
  ~ (accelerationFactor (orbitParams initial) > 1 /\
     decelerationFactor (orbitParams initial) > 1).
Proof. simpl. lra. Qed.

(** C9 (amended): in every reachable state the acceleration factor is 1.3,
    above 1, and the deceleration factor is 0.9, strictly between 0 and 1,
    so that multiplying by a power of it slows the orbit down. *)
Theorem C9_speed_factors (w : World) :
  reachable w ->
  accelerationFactor (orbitParams w) = 13 / 10 /\
  decelerationFactor (orbitParams w) = 9 / 10 /\
  accelerationFactor (orbitParams w) > 1 /\
  0 < decelerationFactor (orbitParams w) < 1.
Proof.
  intros H. apply constants_reachable in H. unfold constantsOf in H.
  simpl in H. injection H as _ _ Ha Hd _ _ _ _.
  rewrite Ha, Hd. repeat split; lra.
Qed.

Lemma C9_speed_factors_witness :
  accelerationFactor (orbitParams (handle initial (KeyDown "ArrowUp"))) > 1 /\
  0 < decelerationFactor (orbitParams (handle initial (KeyDown "ArrowUp"))) < 1.
Proof.
  apply (C9_speed_factors (handle initial (KeyDown "ArrowUp"))).
  apply reachable_handle; [exact reachable_initial|exact I].
Defined.

(** ** Activation and the focus lock *)

Lemma modeOf_locked (w : World) :
  modeOf w = Locked <-> inHotspotMode (orbitParams w) = true.
Proof.
  unfold modeOf. destruct (inHotspotMode (orbitParams w)).
  - tauto.
  - destruct (existsb _ _); [|destruct (existsb _ _)];
      split; intros; discriminate.
Qed.

(** C3 (as stated, refuted): after the activation of "Les Abysses" from the
    initial state the focus transition is in flight ([inHotspotMode] is set
    only when the camera animation completes), and a second activation is
    not rejected: it starts two more animations. *)
Lemma C3_activation_during_transition_not_rejected :
  reachable (handle initial (Click None (nth_error catalogue 1))) /\
  handle initial (Click None (nth_error catalogue 1))
  = activateHotspot initial
      (mkHotspot "abysses" "Les Abysses"
         (mkGeo (-109638 / 10000) (-1766333 / 10000))) /\
  modeOf (handle initial (Click None (nth_error catalogue 1)))
  = TransitioningToFocus /\
  activateHotspot (handle initial (Click None (nth_error catalogue 1)))
    (mkHotspot "requins" "Requins en Danger"
       (mkGeo (24287 / 1000) (-776843 / 10000)))
  <> handle initial (Click None (nth_error catalogue 1)).
Proof.
  split; [apply reachable_handle; [exact reachable_initial|exact I]|].
  split; [reflexivity|]. split; [reflexivity|].
  intros Heq.
  apply (f_equal (fun w => List.length (tweens w))) in Heq.
  simpl in Heq. discriminate.
Qed.

(** C3 (amended): [activateHotspot] called while locked on a hotspot, that
    is while [inHotspotMode] is set, is a no-op: the entire state is
    unchanged. *)
Theorem C3_activation_while_locked_is_noop (w : World) (h : Hotspot) :
  modeOf w = Locked -> activateHotspot w h = w.
Proof.
  intros H. apply modeOf_locked in H. unfold activateHotspot.
  now rewrite H.
Qed.

Lemma C3_activation_while_locked_is_noop_witness :
  activateHotspot
    (completeTween (handle initial (Click None (nth_error catalogue 1))) 0)
    (mkHotspot "requins" "Requins en Danger"
       (mkGeo (24287 / 1000) (-776843 / 10000)))
  = completeTween (handle initial (Click None (nth_error catalogue 1))) 0.
Proof.
  apply (C3_activation_while_locked_is_noop
           (completeTween (handle initial (Click None (nth_error catalogue 1))) 0)).
  reflexivity.
Defined.

(** ** Visibility *)

Lemma hotspotVisible_false (c : Vec3) (hit : option R) (E : R) :
  Labels.hotspotVisible c hit E = false <->
  Labels.outsideView c \/ exists h, hit = Some h /\ h <= E - 1 / 10.
Proof.
  unfold Labels.hotspotVisible, Labels.outsideView.
  destruct (JsMath.gtb (vz c) 1) eqn:Hz; simpl.
  { apply gtb_true in Hz. tauto. }
  destruct (JsMath.ltb (vx c) (-1)) eqn:Hx1; simpl.
  { apply ltb_true in Hx1. tauto. }
  destruct (JsMath.gtb (vx c) 1) eqn:Hx2; simpl.
  { apply gtb_true in Hx2. tauto. }
  destruct (JsMath.ltb (vy c) (-1)) eqn:Hy1; simpl.
  { apply ltb_true in Hy1. tauto. }
  destruct (JsMath.gtb (vy c) 1) eqn:Hy2; simpl.
  { apply gtb_true in Hy2. tauto. }
  apply gtb_false in Hz, Hx2, Hy2. apply ltb_false in Hx1, Hy1.
  destruct hit as [h|].
  - rewrite gtb_false. split.
    + intros Hh. right. exists h. auto.
    + intros [Hout|(h' & Heq & Hh)]; [lra|]. now injection Heq as ->.
  - split; [discriminate|].
    intros [Hout|(h' & Heq & _)]; [lra|discriminate].
Qed.

(** C6 (as stated, refuted): with the projection at the screen centre, the
    hotspot at distance 2 and the globe hit at distance 1.9, exactly the
    hotspot distance minus the tolerance, the hit is not nearer than that
    bound, yet the label is hidden. *)
Lemma C6_hit_at_tolerance_is_hidden :
  Labels.onBeforeRender (mkVec3 0 0 0) (Some (19 / 10)) 2 false 1000 800
    "Les Abysses" = None /\
  ~ (Labels.outsideView (mkVec3 0 0 0) \/
     exists h, Some (19 / 10) = Some h /\ h < 2 - 1 / 10).
Proof.
  split.
  - unfold Labels.onBeforeRender.
    replace (Labels.hotspotVisible (mkVec3 0 0 0) (Some (19 / 10)) 2)
      with false; [reflexivity|].
    symmetry. apply hotspotVisible_false. right. exists (19 / 10).
    split; [reflexivity|lra].
  - unfold Labels.outsideView; simpl.
    intros [H|(h & Heq & Hh)]; [lra|]. injection Heq as <-. lra.
Qed.

(** C6 (amended): in a frame outside focus lock the label of a hotspot is
    hidden exactly when its projection is outside the [-1,1] bounds on an
    axis or beyond depth 1 (behind the camera), or the ray from the camera
    to the hotspot hits the globe at a distance less than or equal to the
    camera-to-hotspot distance minus 0.1; otherwise it is shown. *)
Theorem C6_hidden_exactly_when (c : Vec3) (hit : option R) (E : R)
    (innerWidth innerHeight : R) (t : string) :
  (Labels.onBeforeRender c hit E false innerWidth innerHeight t = None <->
   Labels.outsideView c \/ exists h, hit = Some h /\ h <= E - 1 / 10) /\
  (Labels.onBeforeRender c hit E false innerWidth innerHeight t <> None <->
   Labels.hotspotVisible c hit E = true).
Proof.
  assert (Hnone : Labels.onBeforeRender c hit E false innerWidth innerHeight t
                  = None <-> Labels.hotspotVisible c hit E = false).
  { unfold Labels.onBeforeRender.
    destruct (Labels.hotspotVisible c hit E); simpl.
    - destruct (Labels.labelPosition _ _ _ _). split; discriminate.
    - tauto. }
  split.
  - rewrite Hnone. apply hotspotVisible_false.
  - rewrite Hnone. destruct (Labels.hotspotVisible c hit E); split;
      congruence.
Qed.

(** ** Label layout *)

(** Inside the clear zone the label is clamped: it keeps the margin in any
    viewport of at least 40 by 40 pixels. *)
Lemma clear_zone_label_within_margin (c : Vec3) (innerWidth innerHeight : R)
    (t : string) :
  40 <= innerWidth -> 40 <= innerHeight ->
  sqrt (JsMath.pow2 ((vx c * (5 / 10) + 5 / 10) * innerWidth - innerWidth / 2)
        + JsMath.pow2
            ((- vy c * (5 / 10) + 5 / 10) * innerHeight - innerHeight / 2))
  < JsMath.min (innerWidth / 2) (innerHeight / 2) * (6 / 10) ->
  Labels.withinMargin innerWidth innerHeight
    (Labels.labelPosition c innerWidth innerHeight t).
Proof.
  intros HW HH Hzone. unfold Labels.labelPosition. cbv zeta.
  rewrite (proj2 (ltb_true _ _) Hzone).
  unfold Labels.withinMargin, fst, snd, JsMath.gtb, JsMath.ltb.
  repeat match goal with
         | |- context [Rlt_dec ?a ?b] => destruct (Rlt_dec a b)
         end; lra.
Qed.

(** C8 (evaluation at the failing input): in a 400 by 800 viewport a marker
    projected to (0, -0.375), 150 pixels below the screen centre and so
    outside the clear zone of radius 120, with the 19-character title
    "Pollution Plastique", gets its label at (-15, 540): the flip to the
    left of the marker is not clamped and leaves the viewport, while the
    label is shown. *)
Theorem C8_label_leaves_margin :
  Labels.labelPosition (mkVec3 0 (-3 / 8) 0) 400 800 "Pollution Plastique"
  = (-15, 540) /\
  ~ Labels.withinMargin 400 800
      (Labels.labelPosition (mkVec3 0 (-3 / 8) 0) 400 800
         "Pollution Plastique") /\
  exists l,
    Labels.onBeforeRender (mkVec3 0 (-3 / 8) 0) None 5 false 400 800
      "Pollution Plastique" = Some l /\
    Labels.labelLeft l = -15 /\ Labels.labelTop l = 540.
Proof.
  assert (Hmin : JsMath.min (400 / 2) (800 / 2) = 200).
  { unfold JsMath.min, Rmin. destruct (Rle_dec _ _); lra. }
  assert (Hpos : Labels.labelPosition (mkVec3 0 (-3 / 8) 0) 400 800
                   "Pollution Plastique" = (-15, 540)).
  { unfold Labels.labelPosition. cbv zeta. simpl vx. simpl vy.
    rewrite (proj2 (ltb_false _ _)).
    2:{ rewrite Hmin.
        replace (200 * (6 / 10)) with (sqrt (120 * 120))
          by (rewrite sqrt_square; lra).
        apply sqrt_le_1_alt. unfold JsMath.pow2. lra. }
    rewrite (proj2 (gtb_true _ _)) by (simpl; lra).
    rewrite (proj2 (ltb_false _ _)) by (simpl; lra).
    f_equal; simpl; lra. }
  split; [exact Hpos|]. split.
  - rewrite Hpos. unfold Labels.withinMargin; simpl. lra.
  - unfold Labels.onBeforeRender.
    replace (Labels.hotspotVisible (mkVec3 0 (-3 / 8) 0) None 5) with true.
    + simpl andb. cbv iota. rewrite Hpos. eexists. split; [reflexivity|].
      split; reflexivity.
    + symmetry. unfold Labels.hotspotVisible; simpl.
      rewrite !(proj2 (gtb_false _ _)) by lra.
      rewrite !(proj2 (ltb_false _ _)) by lra. reflexivity.
Qed.
